(** * unstructured.metrics.text_extraction

    A shallow embedding of [src/unstructured/metrics/text_extraction.py]:
    [calculate_edit_distance], [remove_punctuation] and [bag_of_words].

    Python strings are sequences of code points, modelled as [list N].
    Python integers are [Z], Python floats are modelled exactly as [Q].
    Raised exceptions are the [Err] branch of [result]. *)

From Stdlib Require Import ZArith QArith Qminmax Qround Lqa String Ascii Bool Lia List.
Import ListNotations.

Open Scope Z_scope.

(** ** Python values and exceptions *)

(** A Python [str]: a list of code points. *)
Definition pystr := list N.

(** Code points of an ASCII literal, used for the literals of the source. *)
Definition str_of (s : string) : pystr :=
  map (fun a => N.of_nat (nat_of_ascii a)) (list_ascii_of_string s).

Inductive exn :=
| ValueError (msg : pystr)
| ZeroDivisionError
| KeyError
| TypeError.

Inductive result (A : Type) :=
| Ok (a : A)
| Err (e : exn).
Arguments Ok {A} a.
Arguments Err {A} e.

(** The numbers [calculate_edit_distance] returns: an [int] on the
    ["distance"] path, a [float] on the ["score"] path. *)
Inductive pynum :=
| PyInt (z : Z)
| PyFloat (q : Q).

Fixpoint str_eqb (s t : pystr) : bool :=
  match s, t with
  | [], [] => true
  | a :: s', b :: t' => N.eqb a b && str_eqb s' t'
  | _, _ => false
  end.

(** [x in xs] for a list of strings. *)
Definition str_in (x : pystr) (xs : list pystr) : bool :=
  existsb (str_eqb x) xs.

(** [repr] of a list of strings without quotes inside: ['a', 'b']. *)
Definition repr_str (s : pystr) : pystr := str_of "'" ++ s ++ str_of "'".

Fixpoint repr_items (xs : list pystr) : pystr :=
  match xs with
  | [] => []
  | [x] => repr_str x
  | x :: xs' => repr_str x ++ str_of ", " ++ repr_items xs'
  end.

Definition repr_list (xs : list pystr) : pystr :=
  str_of "[" ++ repr_items xs ++ str_of "]".

(** ** [rapidfuzz.distance.Levenshtein.distance(s1, s2, weights=(ins, del, sub))]

    The weighted Levenshtein distance transforming [s1] into [s2], with the
    Wagner-Fischer recurrence over prefixes:
    D(i,0) = i*del, D(0,j) = j*ins,
    D(i,j) = min(D(i-1,j)+del, D(i,j-1)+ins, D(i-1,j-1)+(s1[i-1]<>s2[j-1])*sub).
    The prefixes are walked from their last character, so both strings are
    reversed first. *)

Record weights := { w_ins : Z; w_del : Z; w_sub : Z }.

Definition default_weights : weights := {| w_ins := 2; w_del := 1; w_sub := 1 |}.

Definition sub_cost (w : weights) (a b : N) : Z :=
  if N.eqb a b then 0 else w_sub w.

Definition min3 (x y z : Z) : Z := Z.min (Z.min x y) z.

(** [lev_rev w r1 r2] is D over the reversed prefixes [r1] and [r2]. *)
Fixpoint lev_rev (w : weights) (r1 r2 : pystr) : Z :=
  match r1 with
  | [] => w_ins w * Z.of_nat (length r2)
  | a :: r1' =>
      (fix inner (r2 : pystr) : Z :=
         match r2 with
         | [] => w_del w * Z.of_nat (length r1)
         | b :: r2' =>
             min3 (lev_rev w r1' r2 + w_del w)
                  (inner r2' + w_ins w)
                  (lev_rev w r1' r2' + sub_cost w a b)
         end) r2
  end.

(** The same recurrence computed one row at a time, as the DP table is:
    [lev_row w r1 r2] lists D(r1, t) for every suffix [t] of [r2]. *)
Fixpoint next_row (w : weights) (a : N) (len1 : nat) (prev : list Z) (r2 : pystr)
  : list Z :=
  match r2, prev with
  | [], _ => [w_del w * Z.of_nat len1]
  | b :: r2', p0 :: prest =>
      let r := next_row w a len1 prest r2' in
      min3 (p0 + w_del w) (hd 0 r + w_ins w) (hd 0 prest + sub_cost w a b) :: r
  | _ :: _, [] => []
  end.

Fixpoint suffixes (s : pystr) : list pystr :=
  match s with
  | [] => [[]]
  | _ :: s' => s :: suffixes s'
  end.

Fixpoint lev_row (w : weights) (r1 r2 : pystr) : list Z :=
  match r1 with
  | [] => map (fun t => w_ins w * Z.of_nat (length t)) (suffixes r2)
  | a :: r1' => next_row w a (length r1) (lev_row w r1' r2) r2
  end.

Definition Levenshtein_distance (s1 s2 : pystr) (w : weights) : Z :=
  hd 0 (lev_row w (rev s1) (rev s2)).

(** ** [calculate_edit_distance] *)

Definition return_types : list pystr := [str_of "score"; str_of "distance"].

Definition invalid_return_msg : pystr :=
  str_of "Invalid return value type. Expected one of: " ++ repr_list return_types.

(** Python's [a / b] on an [int] and an [int]: true division, raising on 0. *)
Definition py_div (a b : Z) : result Q :=
  if b =? 0 then Err ZeroDivisionError else Ok (inject_Z a / inject_Z b)%Q.

Definition calculate_edit_distance (output source : pystr) (weights : weights)
    (return_as : pystr) : result pynum :=
  if negb (str_in return_as return_types) then Err (ValueError invalid_return_msg)
  else
    let distance := Levenshtein_distance output source weights in
    let char_len := Z.of_nat (length source) in
    match py_div distance char_len with
    | Err e => Err e
    | Ok ratio =>
        let bounded_percentage_distance := Qmin (Qmax ratio 0) 1 in
        if str_eqb return_as (str_of "score") then
          Ok (PyFloat (1 - bounded_percentage_distance)%Q)
        else if str_eqb return_as (str_of "distance") then Ok (PyInt distance)
        else Ok (PyFloat 0)
    end.

(** ** [remove_punctuation] and [bag_of_words]

    The Unicode database and the [str] methods that read it are the
    section's variables: [lower] is [str.lower], [cat_P i] is
    [unicodedata.category(chr(i)).startswith("P")], and [is_space c] is
    [chr(c).isspace()], the separator test of [str.split()]. *)

Section Unicode.

Variable lower : pystr -> pystr.
Variable cat_P : N -> bool.
Variable is_space : N -> bool.

(** [sys.maxunicode]. *)
Definition maxunicode : N := 1114111.

(** A [dict] whose values are all [None], as a membership test on keys. *)
Definition table := N -> bool.

(** [dict.fromkeys(i for i in range(sys.maxunicode) if ...)]. *)
Definition punct_table : table := fun i => (i <? maxunicode)%N && cat_P i.

(** [ord(punct)]: a [TypeError] unless [punct] is one character. *)
Definition ord (s : pystr) : result N :=
  match s with
  | [c] => Ok c
  | _ => Err TypeError
  end.

(** [for punct in exclude_punctuation: del tbl[ord(punct)]]. *)
Fixpoint del_keys (tbl : table) (exclude : list pystr) : result table :=
  match exclude with
  | [] => Ok tbl
  | punct :: rest =>
      match ord punct with
      | Err e => Err e
      | Ok k =>
          if tbl k then del_keys (fun i => if (i =? k)%N then false else tbl i) rest
          else Err KeyError
      end
  end.

(** [s.translate(tbl)]: every character that is a key of [tbl] is dropped. *)
Definition translate (s : pystr) (tbl : table) : pystr :=
  filter (fun c => negb (tbl c)) s.

Definition remove_punctuation (s : pystr) (exclude_punctuation : option (list pystr))
  : result pystr :=
  let tbl := punct_table in
  let tbl :=
    match exclude_punctuation with
    | Some ((_ :: _) as exclude) => del_keys tbl exclude
    | _ => Ok tbl
    end in
  match tbl with
  | Err e => Err e
  | Ok tbl => Ok (translate s tbl)
  end.

(** [s.split()]: maximal runs of non-space characters; [cur] is the current
    fragment, reversed. *)
Fixpoint split_go (cur : pystr) (s : pystr) : list pystr :=
  match s with
  | [] => match cur with [] => [] | _ => [rev cur] end
  | c :: s' =>
      if is_space c then
        match cur with
        | [] => split_go [] s'
        | _ => rev cur :: split_go [] s'
        end
      else split_go (c :: cur) s'
  end.

Definition split (s : pystr) : list pystr := split_go [] s.

(** The [bow] dict, in insertion order. *)
Definition dict := list (pystr * Z).

Fixpoint dict_get (k : pystr) (d : dict) : option Z :=
  match d with
  | [] => None
  | (k', v) :: d' => if str_eqb k k' then Some v else dict_get k d'
  end.

(** [d[k] = v]: replaces the value of a present key, appends a new one. *)
Fixpoint dict_set (k : pystr) (v : Z) (d : dict) : dict :=
  match d with
  | [] => [(k, v)]
  | (k', v') :: d' => if str_eqb k k' then (k', v) :: d' else (k', v') :: dict_set k v d'
  end.

(** [if w in bow.keys(): bow[w] += 1 else: bow[w] = 1]. *)
Definition bow_add (w : pystr) (bow : dict) : dict :=
  match dict_get w bow with
  | Some n => dict_set w (n + 1) bow
  | None => dict_set w 1 bow
  end.

(** The inner loop
    [while j < len(words) and len(words[j]) == 1: incorrect_word += words[j]; j += 1],
    run for at most [fuel] rounds. *)
Fixpoint scan (fuel : nat) (words : list pystr) (j : nat) (incorrect_word : pystr)
  : option (nat * pystr) :=
  match fuel with
  | O => None
  | S fuel' =>
      if (j <? length words)%nat && (length (nth j words []) =? 1)%nat then
        scan fuel' words (S j) (incorrect_word ++ nth j words [])
      else Some (j, incorrect_word)
  end.

(** One round of the outer loop at [i < len(words)]; the inner loop is
    given [len(words) + 1] rounds. *)
Definition bow_step (words : list pystr) (st : nat * dict) : option (nat * dict) :=
  let (i, bow) := st in
  let w := nth i words [] in
  if (1 <? length w)%nat then Some (S i, bow_add w bow)
  else
    match scan (S (length words)) words i [] with
    | None => None
    | Some (j, incorrect_word) =>
        if (length incorrect_word =? 1)%nat then Some (j, bow_add incorrect_word bow)
        else Some (j, bow)
    end.

(** [while i < len(words): ...], run for at most [fuel] rounds; [None] when
    the rounds run out. *)
Fixpoint bow_loop (fuel : nat) (words : list pystr) (st : nat * dict) : option dict :=
  match fuel with
  | O => None
  | S fuel' =>
      let (i, bow) := st in
      if (i <? length words)%nat then
        match bow_step words st with
        | None => None
        | Some st' => bow_loop fuel' words st'
        end
      else Some bow
  end.

(** The words [bag_of_words] counts. *)
Definition bow_words (text : pystr) : result (list pystr) :=
  match remove_punctuation (lower text) (Some [str_of "-"; str_of "'"]) with
  | Err e => Err e
  | Ok s => Ok (split s)
  end.

(** [bag_of_words(text)], the outer loop given [len(words) + 1] rounds. *)
Definition bag_of_words (text : pystr) : result (option dict) :=
  match bow_words text with
  | Err e => Err e
  | Ok words => Ok (bow_loop (S (length words)) words (0%nat, []))
  end.

(** The counting rule as the spec words it: a fragment of length other
    than 1 stands alone, a maximal run of length-1 fragments is one
    segment; a run of one fragment yields it, a longer run yields nothing. *)
Inductive segment :=
| Long (w : pystr)
| Run (r : list pystr).

Fixpoint segments (words : list pystr) : list segment :=
  match words with
  | [] => []
  | w :: ws =>
      if (length w =? 1)%nat then
        match segments ws with
        | Run r :: rest => Run (w :: r) :: rest
        | rest => Run [w] :: rest
        end
      else Long w :: segments ws
  end.

Definition contribution (sg : segment) : list pystr :=
  match sg with
  | Long w => [w]
  | Run [c] => [c]
  | Run _ => []
  end.

Definition spec_tokens (words : list pystr) : list pystr :=
  flat_map contribution (segments words).

Fixpoint occurrences (k : pystr) (toks : list pystr) : Z :=
  match toks with
  | [] => 0
  | t :: toks' => (if str_eqb k t then 1 else 0) + occurrences k toks'
  end.

(** The characters the normalization strips: punctuation but [-] and ['] *)
Definition stripped (c : N) : bool :=
  cat_P c && negb (c =? 45)%N && negb (c =? 39)%N.

End Unicode.

(** Tables that agree with Python's [str.lower], [unicodedata.category] and
    [str.isspace] on the code points below 256 (ASCII and Latin-1). *)
Definition latin1_lower (s : pystr) : pystr :=
  map (fun c => if ((65 <=? c) && (c <=? 90)) || ((192 <=? c) && (c <=? 222) && negb (c =? 215))
                then c + 32 else c)%N s.

Definition latin1_cat_P (c : N) : bool :=
  existsb (N.eqb c)
    [33; 34; 35; 37; 38; 39; 40; 41; 42; 44; 45; 46; 47; 58; 59; 63; 64;
     91; 92; 93; 95; 123; 125; 161; 167; 171; 182; 183; 187; 191]%N.

Definition latin1_is_space (c : N) : bool :=
  (((9 <=? c) && (c <=? 13)) || ((28 <=? c) && (c <=? 32)) || (c =? 133) || (c =? 160))%N.

Definition latin1_bag_of_words := bag_of_words latin1_lower latin1_cat_P latin1_is_space.

(** A weight triple with no negative cost. *)
Definition nonneg (w : weights) : Prop := 0 <= w_ins w /\ 0 <= w_del w /\ 0 <= w_sub w.

(** Substring test, to read exception messages. *)
Fixpoint prefixb (p s : pystr) : bool :=
  match p, s with
  | [], _ => true
  | a :: p', b :: s' => N.eqb a b && prefixb p' s'
  | _ :: _, [] => false
  end.

Definition infixb (p s : pystr) : bool := existsb (prefixb p) (suffixes s).

(** Python's [round(x, 2)]: to the nearest hundredth, ties to even. *)
Definition py_round2 (q : Q) : Q :=
  let x := (q * 100)%Q in
  let f := Qfloor x in
  let r := (x - inject_Z f)%Q in
  let n := if Qlt_le_dec r (1 # 2) then f
           else if Qlt_le_dec (1 # 2) r then f + 1
           else if Z.even f then f else f + 1 in
  (inject_Z n / 100)%Q.

(** The maximal run of length-1 fragments at the head of a list, and what
    follows it. *)
Fixpoint take_run (ws : list pystr) : list pystr * list pystr :=
  match ws with
  | [] => ([], [])
  | w :: ws' =>
      if (length w =? 1)%nat then let (r, rest) := take_run ws' in (w :: r, rest)
      else ([], ws)
  end.

Definition segment_items (sg : segment) : list pystr :=
  match sg with
  | Long w => [w]
  | Run r => r
  end.

Definition count_after (o : option Z) (n : Z) : option Z :=
  match o with
  | Some m => Some (m + n)
  | None => if n =? 0 then None else Some n
  end.

Definition all_nonempty (words : list pystr) : Prop := forall w, In w words -> w <> [].

Definition count_tokens (toks : list pystr) (bow : dict) : dict :=
  fold_left (fun d t => bow_add t d) toks bow.

(** ** The ingest connectors *)

(** [rapidfuzz] weights with the insertion and deletion costs exchanged. *)
Definition swap_weights (w : weights) : weights :=
  {| w_ins := w_del w; w_del := w_ins w; w_sub := w_sub w |}.

(** Python's [s.split(sep)] for a one-character separator: empty fields
    are kept, so there is always one more field than separators. *)
Fixpoint split_sep (sep : N) (s : pystr) : list pystr :=
  match s with
  | [] => [[]]
  | c :: s' =>
      let rest := split_sep sep s' in
      if (c =? sep)%N then [] :: rest
      else match rest with
           | r :: rs => (c :: r) :: rs
           | [] => [[c]]
           end
  end.

(** [sep.join(xs)]. *)
Fixpoint join_sep (sep : N) (xs : list pystr) : pystr :=
  match xs with
  | [] => []
  | [x] => x
  | x :: xs' => x ++ sep :: join_sep sep xs'
  end.

Section Strip.

Variable is_space : N -> bool.

Fixpoint lstrip (s : pystr) : pystr :=
  match s with
  | c :: s' => if is_space c then lstrip s' else s
  | [] => []
  end.

(** [s.strip()]: whitespace dropped at both ends. *)
Definition strip (s : pystr) : pystr := rev (lstrip (rev (lstrip s))).

(** [SimpleSalesforceConfig.parse_folders(folder_str)]:
    [[x.strip() for x in folder_str.split(",")]]. *)
Definition parse_folders (folder_str : pystr) : list pystr :=
  map strip (split_sep 44 folder_str).

End Strip.

(** [str.endswith(suffix)]. *)
Definition py_endswith (s suffix : pystr) : bool :=
  (length suffix <=? length s)%nat && str_eqb (skipn (length s - length suffix) s) suffix.

(** The extensions [GitConnector.is_file_type_supported] accepts. *)
Definition supported_extensions : list pystr :=
  [str_of ".md"; str_of ".txt"; str_of ".pdf"; str_of ".doc"; str_of ".docx"; str_of ".eml";
   str_of ".html"; str_of ".png"; str_of ".jpg"; str_of ".ppt"; str_of ".pptx"; str_of ".xml"].

(** [GitConnector.is_file_type_supported(path)]: [path.endswith((...))];
    the debug log line is left out. *)
Definition is_file_type_supported (path : pystr) : bool :=
  existsb (py_endswith path) supported_extensions.

(** [sum(bow.values())]. *)
Definition dict_total (d : dict) : Z := fold_right (fun kv acc => snd kv + acc) 0 d.

(** *** Salesforce connector *)

(** The exceptions the connector raises. *)
Inductive sf_exn :=
| SfValueError (msg : pystr)
| MissingCategoryError (msg : pystr).

Inductive sf_result (A : Type) :=
| SfOk (a : A)
| SfErr (e : sf_exn).
Arguments SfOk {A} a.
Arguments SfErr {A} e.

Definition ACCEPTED_CATEGORIES : list pystr :=
  [str_of "Account"; str_of "Case"; str_of "Campaign"; str_of "EmailMessage"; str_of "Lead"].

(** [SalesforceIngestDoc._tmp_download_file]: the path
    [Path(download_dir) / record_type / record_file], as its three parts. *)
Definition tmp_download_file (download_dir record_type record_id : pystr)
  : sf_result (pystr * pystr * pystr) :=
  if str_eqb record_type (str_of "EmailMessage") then
    SfOk (download_dir, record_type, record_id ++ str_of ".eml")
  else if str_in record_type [str_of "Account"; str_of "Lead"; str_of "Case"; str_of "Campaign"] then
    SfOk (download_dir, record_type, record_id ++ str_of ".xml")
  else
    SfErr (MissingCategoryError (str_of "There are no categories with the name: " ++ record_type)).

(** The loop of [SalesforceConnector.get_ingest_docs]; [query q] is the list
    of [record["Id"]] of [client.query_all(q)["records"]], and a document is
    the pair [(record_type, record_id)]. *)
Fixpoint ingest_loop (query : pystr -> list pystr) (categories : list pystr)
    (ingest_docs : list (pystr * pystr)) : sf_result (list (pystr * pystr)) :=
  match categories with
  | [] => SfOk ingest_docs
  | record_type :: rest =>
      if negb (str_in record_type ACCEPTED_CATEGORIES) then
        SfErr (SfValueError (record_type ++ str_of " not currently an accepted Salesforce category"))
      else
        let records := query (str_of "select Id from " ++ record_type) in
        ingest_loop query rest (ingest_docs ++ map (fun id => (record_type, id)) records)
  end.

Definition get_ingest_docs (query : pystr -> list pystr) (categories : list pystr)
  : sf_result (list (pystr * pystr)) :=
  ingest_loop query categories [].

(** *** [SalesforceIngestDoc._xml_for_record] *)













(** *** Git connector: [does_path_match_glob] and [fnmatch] *)

(** The pieces of [fnmatch.translate]'s regular expression: [.*], [.],
    a character set (negated or not) and a literal character. *)
Inductive gtok :=
| GStar
| GAny
| GSet (neg : bool) (cs : pystr)
| GLit (c : N).

(** The characters up to the next [']'], and what follows it. *)
Fixpoint scan_close (s : pystr) : option (pystr * pystr) :=
  match s with
  | [] => None
  | c :: s' =>
      if (c =? 93)%N then Some ([], s')
      else match scan_close s' with
           | None => None
           | Some (a, b) => Some (c :: a, b)
           end
  end.

(** After a ['[']: an optional ['!'], then an optional [']'], then up to
    the next [']']; [stuff] is what lies between the brackets. *)
Definition bracket (s : pystr) : option (pystr * pystr) :=
  let (neg, s1) := match s with 33%N :: s1 => ([33%N], s1) | _ => ([], s) end in
  let (first, s2) := match s1 with 93%N :: s2 => ([93%N], s2) | _ => ([], s1) end in
  match scan_close s2 with
  | None => None
  | Some (a, rest) => Some (neg ++ first ++ a, rest)
  end.

(** [fnmatch.translate], run for at most [fuel] rounds. A set whose
    [stuff] holds a ['-'] is read as ranges, which the Python versions
    treat differently; it is left out ([None]). Consecutive ['*'] give
    one [.*]. *)
Fixpoint translate_pat (fuel : nat) (pat : pystr) : option (list gtok) :=
  match fuel with
  | O => None
  | S fuel' =>
      match pat with
      | [] => Some []
      | c :: pat' =>
          if (c =? 42)%N then
            match translate_pat fuel' pat' with
            | None => None
            | Some (GStar :: _) as r => r
            | Some r => Some (GStar :: r)
            end
          else if (c =? 63)%N then option_map (cons GAny) (translate_pat fuel' pat')
          else if (c =? 91)%N then
            match bracket pat' with
            | None => option_map (cons (GLit 91)) (translate_pat fuel' pat')
            | Some (stuff, rest) =>
                if existsb (N.eqb 45) stuff then None
                else
                  let tok := match stuff with
                             | 33%N :: cs => GSet true cs
                             | cs => GSet false cs
                             end in
                  option_map (cons tok) (translate_pat fuel' rest)
            end
          else option_map (cons (GLit c)) (translate_pat fuel' pat')
      end
  end.

Definition set_match (neg : bool) (cs : pystr) (c : N) : bool :=
  xorb neg (existsb (N.eqb c) cs).

(** [re.match] of the translated pattern, anchored at both ends. *)
Fixpoint gmatch (toks : list gtok) (s : pystr) : bool :=
  match toks with
  | [] => match s with [] => true | _ :: _ => false end
  | GStar :: toks' =>
      (fix star (s : pystr) : bool :=
         gmatch toks' s || match s with [] => false | _ :: s' => star s' end) s
  | GAny :: toks' => match s with [] => false | _ :: s' => gmatch toks' s' end
  | GSet neg cs :: toks' =>
      match s with [] => false | c :: s' => set_match neg cs c && gmatch toks' s' end
  | GLit c :: toks' =>
      match s with [] => false | c' :: s' => (c =? c')%N && gmatch toks' s' end
  end.

(** [fnmatch.filter([name], pat)] is non-empty; on POSIX [normcase] is the
    identity. *)
Definition fnmatch (name pat : pystr) : option bool :=
  option_map (fun toks => gmatch toks name) (translate_pat (S (length pat)) pat).



(** * Proofs *)

Example bow_t1 : latin1_bag_of_words (str_of "Hello my name is H a r p e r, what's your name?")
  = Ok (Some [(str_of "hello", 1); (str_of "my", 1); (str_of "name", 2); (str_of "is", 1);
              (str_of "what's", 1); (str_of "your", 1)]).
Proof. vm_compute. reflexivity. Qed.

Example bow_t2 : latin1_bag_of_words (str_of "I have a dog and a cat, I love my dog.")
  = Ok (Some [(str_of "i", 2); (str_of "have", 1); (str_of "a", 2); (str_of "dog", 2);
              (str_of "and", 1); (str_of "cat", 1); (str_of "love", 1); (str_of "my", 1)]).
Proof. vm_compute. reflexivity. Qed.

Example ced_t1 : calculate_edit_distance (str_of "I like p i z z a . I like bagles.")
   (str_of "I like pizza. I like bagels.") default_weights (str_of "distance") = Ok (PyInt 7).
Proof. vm_compute. reflexivity. Qed.

Example ced_t2 : calculate_edit_distance (str_of "I like pizza.")
   (str_of "I like pizza. I like bagels.") default_weights (str_of "distance") = Ok (PyInt 30).
Proof. vm_compute. reflexivity. Qed.

Example lev_small : Levenshtein_distance (str_of "kitten") (str_of "sitting")
                      {| w_ins := 1; w_del := 1; w_sub := 1 |} = 3.
Proof. vm_compute. reflexivity. Qed.

(** ** The row-by-row table computes the recurrence *)

Lemma hd_map_suffixes (f : pystr -> Z) (t : pystr) : hd 0 (map f (suffixes t)) = f t.
Proof. destruct t; reflexivity. Qed.

Lemma next_row_spec (w : weights) (a : N) (r1 r2 : pystr) :
  next_row w a (S (length r1)) (map (lev_rev w r1) (suffixes r2)) r2
  = map (lev_rev w (a :: r1)) (suffixes r2).
Proof.
  induction r2 as [| b t IH]; [reflexivity |].
  cbn [suffixes map next_row]. rewrite IH, !hd_map_suffixes. reflexivity.
Qed.

Lemma lev_row_spec (w : weights) (r1 r2 : pystr) :
  lev_row w r1 r2 = map (lev_rev w r1) (suffixes r2).
Proof.
  induction r1 as [| a r1 IH]; [reflexivity |].
  cbn [lev_row length]. rewrite IH. apply next_row_spec.
Qed.

Lemma Levenshtein_distance_rev (s1 s2 : pystr) (w : weights) :
  Levenshtein_distance s1 s2 w = lev_rev w (rev s1) (rev s2).
Proof. unfold Levenshtein_distance. rewrite lev_row_spec. apply hd_map_suffixes. Qed.

Lemma lev_rev_cons (w : weights) (a b : N) (r1 r2 : pystr) :
  lev_rev w (a :: r1) (b :: r2)
  = min3 (lev_rev w r1 (b :: r2) + w_del w) (lev_rev w (a :: r1) r2 + w_ins w)
         (lev_rev w r1 r2 + sub_cost w a b).
Proof. reflexivity. Qed.

Lemma lev_rev_nonneg (w : weights) (r1 r2 : pystr) :
  nonneg w -> 0 <= lev_rev w r1 r2.
Proof.
  intros (Hi & Hd & Hs). revert r2.
  induction r1 as [| a r1 IH]; intros r2.
  - simpl. lia.
  - induction r2 as [| b r2 IH2].
    + simpl. lia.
    + rewrite lev_rev_cons. unfold min3, sub_cost.
      specialize (IH (b :: r2)) as H1. specialize (IH r2) as H2.
      destruct (N.eqb a b); lia.
Qed.

Lemma lev_rev_refl (w : weights) (r : pystr) : nonneg w -> lev_rev w r r = 0.
Proof.
  intros Hw. induction r as [| a r IH].
  - simpl. lia.
  - rewrite lev_rev_cons. unfold sub_cost. rewrite N.eqb_refl, IH.
    pose proof (lev_rev_nonneg w r (a :: r) Hw).
    pose proof (lev_rev_nonneg w (a :: r) r Hw).
    destruct Hw as (Hi & Hd & Hs). unfold min3. lia.
Qed.

Lemma Levenshtein_distance_nonneg (s1 s2 : pystr) (w : weights) :
  nonneg w -> 0 <= Levenshtein_distance s1 s2 w.
Proof. intros Hw. rewrite Levenshtein_distance_rev. now apply lev_rev_nonneg. Qed.

Lemma Levenshtein_distance_refl (s : pystr) (w : weights) :
  nonneg w -> Levenshtein_distance s s w = 0.
Proof. intros Hw. rewrite Levenshtein_distance_rev. now apply lev_rev_refl. Qed.

Lemma str_eqb_refl (s : pystr) : str_eqb s s = true.
Proof. induction s; simpl; [reflexivity |]. now rewrite N.eqb_refl. Qed.

Lemma str_eqb_eq (s t : pystr) : str_eqb s t = true <-> s = t.
Proof.
  split; [| intros ->; apply str_eqb_refl].
  revert t; induction s as [| a s IH]; intros [| b t]; simpl; try easy.
  rewrite andb_true_iff, N.eqb_eq. intros [-> H]. now rewrite (IH t H).
Qed.

(** The clamp [min(max(x, 0.0), 1.0)] lands in [[0, 1]]. *)
Lemma clamp_bounds (x : Q) : (0 <= Qmin (Qmax x 0) 1 <= 1)%Q.
Proof.
  split.
  - apply Q.min_glb; [apply Q.le_max_r | discriminate].
  - apply Q.le_min_r.
Qed.


(** ** Claims on [calculate_edit_distance] *)

(** C1: with an empty [source] the division [distance / char_len] runs
    with [char_len = 0] for both result modes, and the call raises
    [ZeroDivisionError], whatever [output] and the weights are. *)
Theorem calculate_edit_distance_empty_source (output : pystr) (w : weights) :
  calculate_edit_distance output [] w (str_of "score") = Err ZeroDivisionError /\
  calculate_edit_distance output [] w (str_of "distance") = Err ZeroDivisionError.
Proof. split; reflexivity. Qed.

(** C3 (counterexample): for [return_as = "bogus"] the raised [ValueError]
    carries a message in which ["bogus"] does not occur. *)
Lemma calculate_edit_distance_bogus_message :
  calculate_edit_distance (str_of "x") (str_of "x") default_weights (str_of "bogus")
    = Err (ValueError invalid_return_msg) /\
  infixb (str_of "bogus") invalid_return_msg = false.
Proof. split; vm_compute; reflexivity. Qed.

(** C3 (amended): every [return_as] outside [return_types] raises
    [ValueError] whatever [output], [source] (even empty) and the weights
    are, so before the distance and the division; the message is fixed and
    lists the valid modes. *)
Theorem calculate_edit_distance_invalid_mode (output source : pystr) (w : weights)
    (return_as : pystr) :
  str_in return_as return_types = false ->
  calculate_edit_distance output source w return_as = Err (ValueError invalid_return_msg) /\
  invalid_return_msg
    = str_of "Invalid return value type. Expected one of: ['score', 'distance']".
Proof.
  intros H. split.
  - unfold calculate_edit_distance. now rewrite H.
  - reflexivity.
Qed.

Lemma calculate_edit_distance_invalid_mode_witness :
  str_in (str_of "bogus") return_types = false /\
  calculate_edit_distance [] [] default_weights (str_of "bogus")
    = Err (ValueError invalid_return_msg) /\
  invalid_return_msg
    = str_of "Invalid return value type. Expected one of: ['score', 'distance']".
Proof.
  split; [vm_compute; reflexivity |].
  apply calculate_edit_distance_invalid_mode. vm_compute. reflexivity.
Defined.

Lemma calculate_edit_distance_nonempty (output source : pystr) (w : weights) :
  source <> [] ->
  calculate_edit_distance output source w (str_of "score")
    = Ok (PyFloat (1 - Qmin (Qmax (inject_Z (Levenshtein_distance output source w)
                                   / inject_Z (Z.of_nat (length source))) 0) 1)%Q) /\
  calculate_edit_distance output source w (str_of "distance")
    = Ok (PyInt (Levenshtein_distance output source w)).
Proof.
  intros Hs. destruct source as [| c source]; [congruence |].
  unfold calculate_edit_distance, py_div.
  replace (Z.of_nat (length (c :: source)) =? 0) with false
    by (symmetry; apply Z.eqb_neq; simpl; lia).
  split; reflexivity.
Qed.

(** C4: on the ["distance"] path a non-empty [source] gives the raw
    [Levenshtein.distance]; an empty one raises [ZeroDivisionError] from the
    normalization the path does not use, where the distance is 1. *)
Theorem calculate_edit_distance_distance_path :
  (forall (output source : pystr) (w : weights), source <> [] ->
     calculate_edit_distance output source w (str_of "distance")
       = Ok (PyInt (Levenshtein_distance output source w))) /\
  Levenshtein_distance (str_of "a") [] default_weights = 1 /\
  calculate_edit_distance (str_of "a") [] default_weights (str_of "distance")
    = Err ZeroDivisionError.
Proof.
  split; [| split; reflexivity].
  intros output source w Hs. apply (calculate_edit_distance_nonempty output source w Hs).
Qed.

(** C5: with a non-empty [source] the score lies in [[0, 1]] (for any
    weights) and, with non-negative weights, the distance is [>= 0]; with an
    empty [source] neither mode returns a value. *)
Theorem calculate_edit_distance_bounded :
  (forall (output source : pystr) (w : weights), source <> [] ->
     exists q, calculate_edit_distance output source w (str_of "score") = Ok (PyFloat q)
               /\ (0 <= q <= 1)%Q) /\
  (forall (output source : pystr) (w : weights), nonneg w -> source <> [] ->
     exists z, calculate_edit_distance output source w (str_of "distance") = Ok (PyInt z)
               /\ 0 <= z) /\
  calculate_edit_distance [] [] default_weights (str_of "score") = Err ZeroDivisionError /\
  calculate_edit_distance [] [] default_weights (str_of "distance") = Err ZeroDivisionError.
Proof.
  split; [| split; [| split; reflexivity]].
  - intros output source w Hs.
    destruct (calculate_edit_distance_nonempty output source w Hs) as [-> _].
    eexists; split; [reflexivity |].
    destruct (clamp_bounds (inject_Z (Levenshtein_distance output source w)
                              / inject_Z (Z.of_nat (length source)))) as [H0 H1].
    unfold Qminus. split; lra.
  - intros output source w Hw Hs.
    destruct (calculate_edit_distance_nonempty output source w Hs) as [_ ->].
    eexists; split; [reflexivity |]. now apply Levenshtein_distance_nonneg.
Qed.

(** C6: the score of a non-empty string against itself is exactly 1. *)
Theorem calculate_edit_distance_identity (x : pystr) (w : weights) :
  x <> [] -> nonneg w ->
  exists q, calculate_edit_distance x x w (str_of "score") = Ok (PyFloat q) /\ (q == 1)%Q.
Proof.
  intros Hx Hw.
  destruct (calculate_edit_distance_nonempty x x w Hx) as [-> _].
  eexists; split; [reflexivity |].
  rewrite (Levenshtein_distance_refl x w Hw).
  destruct x as [| c x]; [congruence |].
  unfold Qdiv. rewrite Qmult_0_l. reflexivity.
Qed.

Lemma calculate_edit_distance_identity_witness :
  exists q, calculate_edit_distance (str_of "I like pizza.") (str_of "I like pizza.")
              default_weights (str_of "score") = Ok (PyFloat q) /\ (q == 1)%Q.
Proof.
  apply calculate_edit_distance_identity.
  - discriminate.
  - unfold nonneg; simpl; lia.
Defined.

(** C7: the two scores of the test, with the default weights. *)
Theorem calculate_edit_distance_pizza_scores :
  (exists q, calculate_edit_distance (str_of "I like p i z z a . I like bagles.")
               (str_of "I like pizza. I like bagels.") default_weights (str_of "score")
             = Ok (PyFloat q) /\ (q == 3 # 4)%Q /\ (py_round2 q == 75 # 100)%Q) /\
  (exists q, calculate_edit_distance (str_of "I like pizza.")
               (str_of "I like pizza. I like bagels.") default_weights (str_of "score")
             = Ok (PyFloat q) /\ (q == 0)%Q /\ (py_round2 q == 0)%Q).
Proof.
  split; eexists; (split; [vm_compute; reflexivity |]); split; vm_compute; reflexivity.
Qed.

(** ** The word counter *)

(** *** Runs and segments *)

Lemma take_run_app (ws : list pystr) :
  fst (take_run ws) ++ snd (take_run ws) = ws.
Proof.
  induction ws as [| w ws IH]; [reflexivity |]. simpl.
  destruct (length w =? 1)%nat; [| reflexivity].
  destruct (take_run ws) as [r rest]. simpl in *. now rewrite IH.
Qed.

Lemma take_run_single (ws : list pystr) :
  forall c, In c (fst (take_run ws)) -> length c = 1%nat.
Proof.
  induction ws as [| w ws IH]; simpl; [easy |].
  destruct (length w =? 1)%nat eqn:E; [| easy].
  destruct (take_run ws) as [r rest]. simpl in *.
  intros c [<- | Hc]; [now apply Nat.eqb_eq | now apply IH].
Qed.

Lemma take_run_cons (w : pystr) (ws : list pystr) :
  length w = 1%nat -> fst (take_run (w :: ws)) = w :: fst (take_run ws).
Proof.
  intros H. simpl. rewrite H. simpl. now destruct (take_run ws).
Qed.

(** The spec's segments of a list: its head run first, then the rest. *)
Lemma segments_take_run (ws : list pystr) :
  segments ws = match fst (take_run ws) with
                | [] => segments (snd (take_run ws))
                | r => Run r :: segments (snd (take_run ws))
                end.
Proof.
  induction ws as [| w ws IH]; [reflexivity |].
  simpl. destruct (length w =? 1)%nat eqn:E; [| simpl; now rewrite E].
  destruct (take_run ws) as [r rest] eqn:Er. simpl in *.
  rewrite IH. destruct r as [| c r]; [| reflexivity].
  (* an empty head run: [ws] starts with no length-1 fragment *)
  pose proof (take_run_app ws) as Happ. rewrite Er in Happ. simpl in Happ. subst rest.
  destruct ws as [| w' ws]; [reflexivity |].
  simpl in Er |- *. destruct (length w' =? 1)%nat; [| reflexivity].
  destruct (take_run ws); discriminate.
Qed.

Lemma spec_tokens_cons_long (w : pystr) (ws : list pystr) :
  length w <> 1%nat -> spec_tokens (w :: ws) = w :: spec_tokens ws.
Proof.
  intros H. unfold spec_tokens. simpl.
  apply Nat.eqb_neq in H. now rewrite H.
Qed.

Lemma spec_tokens_run (ws : list pystr) :
  fst (take_run ws) <> [] ->
  spec_tokens ws = contribution (Run (fst (take_run ws))) ++ spec_tokens (snd (take_run ws)).
Proof.
  intros H. unfold spec_tokens at 1. rewrite segments_take_run.
  destruct (fst (take_run ws)); [congruence | reflexivity].
Qed.

Lemma segments_items (ws : list pystr) :
  forall sg t, In sg (segments ws) -> In t (segment_items sg) -> In t ws.
Proof.
  induction ws as [| w ws IH]; simpl; [easy |].
  destruct (length w =? 1)%nat.
  - destruct (segments ws) as [| [w' | r] rest] eqn:E; simpl.
    + intros sg t [<- | []] [<- | []]. now left.
    + intros sg t [<- | Hsg].
      * intros [<- | []]. now left.
      * intros Ht. right. apply (IH sg); [exact Hsg | exact Ht].
    + intros sg t [<- | Hsg].
      * simpl. intros [<- | Ht]; [now left |].
        right. apply (IH (Run r)); [now left | exact Ht].
      * intros Ht. right. apply (IH sg); [now right | exact Ht].
  - intros sg t [<- | Hsg].
    + intros [<- | []]. now left.
    + intros Ht. right. now apply (IH sg).
Qed.

Lemma spec_tokens_incl (ws : list pystr) (t : pystr) :
  In t (spec_tokens ws) -> In t ws.
Proof.
  unfold spec_tokens. rewrite in_flat_map. intros (sg & Hsg & Ht).
  apply (segments_items ws sg t Hsg).
  destruct sg as [w | [| c [| c' r]]]; simpl in *; tauto.
Qed.

(** *** The dict *)

Lemma dict_get_set (k w : pystr) (v : Z) (d : dict) :
  dict_get k (dict_set w v d) = if str_eqb k w then Some v else dict_get k d.
Proof.
  induction d as [| [k' v'] d IH]; simpl; [reflexivity |].
  destruct (str_eqb w k') eqn:Ewk; simpl.
  - apply str_eqb_eq in Ewk. subst. now destruct (str_eqb k k').
  - rewrite IH. destruct (str_eqb k k') eqn:Ekk; [| reflexivity].
    apply str_eqb_eq in Ekk. subst.
    destruct (str_eqb k' w) eqn:Ekw; [| reflexivity].
    apply str_eqb_eq in Ekw. subst. now rewrite str_eqb_refl in Ewk.
Qed.

Lemma dict_get_bow_add (k w : pystr) (d : dict) :
  dict_get k (bow_add w d)
  = if str_eqb k w then Some (match dict_get k d with Some n => n + 1 | None => 1 end)
    else dict_get k d.
Proof.
  unfold bow_add. destruct (dict_get w d) eqn:E; rewrite dict_get_set;
    destruct (str_eqb k w) eqn:Ekw; try reflexivity;
    apply str_eqb_eq in Ekw; subst; now rewrite E.
Qed.

Lemma occurrences_nonneg (k : pystr) (toks : list pystr) : 0 <= occurrences k toks.
Proof. induction toks; simpl; [lia | destruct (str_eqb k a); lia]. Qed.

Lemma occurrences_in (k : pystr) (toks : list pystr) :
  occurrences k toks <> 0 -> In k toks.
Proof.
  induction toks as [| t toks IH]; simpl; [easy |].
  destruct (str_eqb k t) eqn:E.
  - apply str_eqb_eq in E. now left.
  - intros H. right. apply IH. lia.
Qed.

Lemma dict_get_fold (k : pystr) (toks : list pystr) (d : dict) :
  dict_get k (fold_left (fun d t => bow_add t d) toks d)
  = count_after (dict_get k d) (occurrences k toks).
Proof.
  revert d. induction toks as [| t toks IH]; intros d; cbn [fold_left occurrences].
  - unfold count_after. destruct (dict_get k d); [f_equal; lia | reflexivity].
  - rewrite IH, dict_get_bow_add. pose proof (occurrences_nonneg k toks) as Hn.
    unfold count_after.
    destruct (str_eqb k t), (dict_get k d); try (f_equal; lia).
    + destruct (occurrences k toks =? 0) eqn:E;
        [apply Z.eqb_eq in E | apply Z.eqb_neq in E];
        replace (1 + occurrences k toks =? 0) with false by (symmetry; apply Z.eqb_neq; lia);
        f_equal; lia.
    + replace (0 + occurrences k toks) with (occurrences k toks) by lia. reflexivity.
Qed.

(** *** The loops *)

Lemma skipn_nth (l : list pystr) (j : nat) :
  (j < length l)%nat -> skipn j l = nth j l [] :: skipn (S j) l.
Proof.
  revert j. induction l as [| x l IH]; intros j Hj; simpl in Hj; [lia |].
  destruct j as [| j]; [reflexivity |]. simpl. apply IH. lia.
Qed.

Lemma skipn_length_ge (l : list pystr) (j : nat) :
  (length l <= j)%nat -> skipn j l = [].
Proof. intros H. apply skipn_all2. exact H. Qed.

(** The inner loop consumes the head run of [words[j:]], joined. *)
Lemma scan_run (fuel : nat) (words : list pystr) (j : nat) (acc : pystr) :
  (length (fst (take_run (skipn j words))) < fuel)%nat ->
  scan fuel words j acc
  = Some (j + length (fst (take_run (skipn j words))),
          acc ++ concat (fst (take_run (skipn j words))))%nat.
Proof.
  revert j acc. induction fuel as [| fuel IH]; intros j acc Hf; [lia |].
  simpl. destruct (j <? length words)%nat eqn:Ej.
  - apply Nat.ltb_lt in Ej. rewrite (skipn_nth words j Ej) in Hf |- *.
    destruct (length (nth j words []) =? 1)%nat eqn:E1.
    + apply Nat.eqb_eq in E1. rewrite take_run_cons in Hf |- * by exact E1.
      cbn [fst length] in Hf. rewrite IH by lia. cbn [andb length concat].
      f_equal. f_equal; [lia | now rewrite app_assoc].
    + simpl. rewrite E1. simpl. now rewrite Nat.add_0_r, app_nil_r.
  - apply Nat.ltb_ge in Ej. rewrite skipn_length_ge by exact Ej. simpl.
    now rewrite Nat.add_0_r, app_nil_r.
Qed.

Lemma concat_single_length (r : list pystr) :
  (forall c, In c r -> length c = 1%nat) -> length (concat r) = length r.
Proof.
  induction r as [| c r IH]; intros H; [reflexivity |].
  simpl. rewrite length_app, IH by (intros; apply H; now right).
  rewrite (H c) by now left. reflexivity.
Qed.

Lemma take_run_length (ws : list pystr) : (length (fst (take_run ws)) <= length ws)%nat.
Proof.
  rewrite <- (take_run_app ws) at 2. rewrite length_app. lia.
Qed.

Lemma skipn_take_run (words : list pystr) (i : nat) :
  skipn (i + length (fst (take_run (skipn i words)))) words
  = snd (take_run (skipn i words)).
Proof.
  pose proof (take_run_app (skipn i words)) as H.
  destruct (take_run (skipn i words)) as [r rest]. simpl in *.
  rewrite Nat.add_comm, <- skipn_skipn, <- H, skipn_app, Nat.sub_diag, skipn_all.
  reflexivity.
Qed.


(** One round of the outer loop over non-empty fragments moves the cursor
    past the head segment of [words[i:]] and counts that segment's
    contribution. *)
Lemma bow_step_segment (words : list pystr) (i : nat) (bow : dict) :
  all_nonempty words -> (i < length words)%nat ->
  exists i' toks,
    bow_step words (i, bow) = Some (i', count_tokens toks bow) /\
    (i < i' <= length words)%nat /\
    spec_tokens (skipn i words) = toks ++ spec_tokens (skipn i' words).
Proof.
  intros Hne Hi.
  pose proof (skipn_nth words i Hi) as Hsk.
  set (w := nth i words []) in *.
  assert (Hw : w <> []) by (apply Hne; apply nth_In; exact Hi).
  unfold bow_step. fold w.
  destruct (1 <? length w)%nat eqn:E.
  - apply Nat.ltb_lt in E. exists (S i), [w]. split; [reflexivity |]. split; [lia |].
    rewrite Hsk, spec_tokens_cons_long by lia. reflexivity.
  - apply Nat.ltb_ge in E.
    assert (E1 : length w = 1%nat) by (destruct w; [congruence | simpl in *; lia]).
    set (r := fst (take_run (skipn i words))).
    assert (Hr : r = w :: fst (take_run (skipn (S i) words)))
      by (unfold r; rewrite Hsk; now apply take_run_cons).
    assert (Hlen : (length r <= length words - i)%nat)
      by (unfold r; rewrite <- length_skipn; apply take_run_length).
    rewrite (scan_run (S (length words)) words i []) by (fold r; lia).
    fold r. simpl app.
    rewrite concat_single_length by apply take_run_single.
    exists (i + length r)%nat, (contribution (Run r)).
    split; [| split].
    + rewrite Hr. destruct (fst (take_run (skipn (S i) words))) as [| c r'].
      * simpl. now rewrite app_nil_r.
      * reflexivity.
    + rewrite Hr. simpl. split; [lia |]. rewrite Hr in Hlen. simpl in Hlen. lia.
    + rewrite spec_tokens_run by (fold r; rewrite Hr; discriminate).
      fold r. rewrite <- (skipn_take_run words i). reflexivity.
Qed.

Lemma bow_loop_tokens (words : list pystr) :
  all_nonempty words ->
  forall n i bow, (length words - i < n)%nat ->
  bow_loop n words (i, bow) = Some (count_tokens (spec_tokens (skipn i words)) bow).
Proof.
  intros Hne n. induction n as [| n IH]; intros i bow Hn; [lia |].
  cbn [bow_loop]. destruct (i <? length words)%nat eqn:Ei.
  - apply Nat.ltb_lt in Ei.
    destruct (bow_step_segment words i bow Hne Ei) as (i' & toks & -> & Hi' & Htoks).
    rewrite IH by lia. rewrite Htoks. unfold count_tokens. now rewrite fold_left_app.
  - apply Nat.ltb_ge in Ei. now rewrite skipn_length_ge.
Qed.

Lemma bow_step_empty (ws : list pystr) (i : nat) (bow : dict) :
  nth_error ws i = Some [] -> bow_step ws (i, bow) = Some (i, bow).
Proof.
  intros H. assert (Hi : (i < length ws)%nat) by (apply nth_error_Some; congruence).
  assert (Hn : nth i ws [] = []) by (apply nth_error_nth; exact H).
  unfold bow_step. rewrite Hn. simpl.
  replace (i <? length ws)%nat with true by (symmetry; now apply Nat.ltb_lt).
  rewrite Hn. reflexivity.
Qed.

Lemma dict_set_keys (k w : pystr) (v : Z) (d : dict) :
  In k (map fst (dict_set w v d)) -> k = w \/ In k (map fst d).
Proof.
  induction d as [| [k' v'] d IH]; simpl; [intros [H | []]; now left |].
  destruct (str_eqb w k'); simpl; [tauto |].
  intros [H | H]; [tauto |]. destruct (IH H); tauto.
Qed.

Lemma count_tokens_keys (k : pystr) (toks : list pystr) (d : dict) :
  In k (map fst (count_tokens toks d)) -> In k toks \/ In k (map fst d).
Proof.
  unfold count_tokens. revert d. induction toks as [| t toks IH]; intros d; simpl; [tauto |].
  intros H. destruct (IH _ H) as [H1 | H1]; [tauto |].
  unfold bow_add in H1. destruct (dict_get t d);
    (destruct (dict_set_keys _ _ _ _ H1) as [-> | H2]; tauto).
Qed.

(** *** Against the Unicode tables

    The facts of the Unicode database the proofs read: ['-'] (U+002D, Pd)
    and ['''] (U+0027, Po) are punctuation, and every punctuation code point
    is below [sys.maxunicode] (U+10FFFF is unassigned). *)

Section Counter.

Variable lower : pystr -> pystr.
Variable cat_P : N -> bool.
Variable is_space : N -> bool.

Hypothesis hyphen_punct : cat_P 45%N = true.
Hypothesis apostrophe_punct : cat_P 39%N = true.
Hypothesis punct_range : forall c, cat_P c = true -> (c < maxunicode)%N.

Lemma split_go_nonempty (cur s : pystr) : all_nonempty (split_go is_space cur s).
Proof.
  revert cur. induction s as [| c s IH]; intros cur; simpl.
  - destruct cur as [| a cur]; intros w; simpl; [easy |].
    intros [<- | []] Hw. apply (f_equal (@length N)) in Hw.
    rewrite ?length_rev, ?length_app in Hw. simpl in Hw. lia.
  - destruct (is_space c); [| apply IH].
    destruct cur as [| a cur]; [apply IH |].
    intros w [<- | Hw]; [| now apply (IH [])].
    intros H. apply (f_equal (@length N)) in H.
    rewrite ?length_rev, ?length_app in H. simpl in H. lia.
Qed.

Lemma punct_table_stripped (c : N) : punct_table cat_P c = cat_P c.
Proof.
  unfold punct_table. destruct (cat_P c) eqn:E; [| now rewrite andb_false_r].
  apply punct_range, N.ltb_lt in E. now rewrite E.
Qed.

(** The words [bag_of_words] walks: lower-cased, punctuation but ['-'] and
    ['''] stripped, split on whitespace. *)
Lemma bow_words_spec (text : pystr) :
  bow_words lower cat_P is_space text
  = Ok (split is_space (filter (fun c => negb (stripped cat_P c)) (lower text))).
Proof.
  unfold bow_words, remove_punctuation.
  change (str_of "-") with [45%N]. change (str_of "'") with [39%N].
  cbn [del_keys ord]. rewrite punct_table_stripped, hyphen_punct.
  cbn -[punct_table]. rewrite punct_table_stripped, apostrophe_punct.
  do 2 f_equal. unfold translate. apply filter_ext. intros c.
  unfold stripped. rewrite punct_table_stripped.
  destruct (c =? 39)%N eqn:E39; destruct (c =? 45)%N eqn:E45; simpl;
    rewrite ?andb_false_r, ?andb_true_r; reflexivity.
Qed.

Lemma bag_of_words_tokens (text : pystr) :
  bag_of_words lower cat_P is_space text
  = Ok (Some (count_tokens
                (spec_tokens (split is_space (filter (fun c => negb (stripped cat_P c))
                                                     (lower text)))) [])).
Proof.
  unfold bag_of_words. rewrite bow_words_spec. do 2 f_equal.
  rewrite bow_loop_tokens; [reflexivity | apply split_go_nonempty | lia].
Qed.

Lemma del_keys_missing (c : N) (exclude : list pystr) :
  forall tbl : table,
  (forall i, tbl i = true -> punct_table cat_P i = true) ->
  (forall p, In p exclude -> length p = 1%nat) ->
  In [c] exclude -> cat_P c = false ->
  del_keys tbl exclude = Err KeyError.
Proof.
  induction exclude as [| p rest IH]; intros tbl Htbl Hlen Hin Hc; [easy |].
  destruct p as [| k [| k' p]]; [discriminate (Hlen [] (or_introl eq_refl)) | |
    discriminate (Hlen (k :: k' :: p) (or_introl eq_refl))].
  cbn [del_keys ord]. destruct (tbl k) eqn:Ek; [| reflexivity].
  destruct Hin as [Hck | Hin].
  - injection Hck as ->. apply Htbl in Ek. unfold punct_table in Ek.
    rewrite Hc, andb_false_r in Ek. discriminate.
  - apply IH; [| intros q Hq; apply Hlen; now right | exact Hin | exact Hc].
    intros i. destruct (i =? k)%N; [discriminate | apply Htbl].
Qed.

(** C8: every key of the mapping is one whole, non-empty fragment of the
    split text, so of length above 1 or a single character. *)
Theorem bag_of_words_keys (text : pystr) :
  exists words bow,
    bow_words lower cat_P is_space text = Ok words /\
    bag_of_words lower cat_P is_space text = Ok (Some bow) /\
    forall k, In k (map fst bow) ->
      k <> [] /\ In k words /\ (1 < length k \/ length k = 1)%nat.
Proof.
  eexists; eexists. split; [apply bow_words_spec | split; [apply bag_of_words_tokens |]].
  intros k Hk. apply count_tokens_keys in Hk. destruct Hk as [Hk | []].
  apply spec_tokens_incl in Hk.
  assert (Hne : k <> []) by (exact (split_go_nonempty [] _ k Hk)).
  split; [exact Hne | split; [exact Hk |]].
  destruct k as [| a [| b k]]; [congruence | right; reflexivity | left; simpl; lia].
Qed.

(** C9: the fragments are never empty, each round of the outer loop moves
    the cursor forward, so the loop ends within [len(words) + 1] rounds;
    on an empty fragment a round would leave the cursor where it is. *)
Theorem bag_of_words_terminates (text : pystr) :
  exists words,
    bow_words lower cat_P is_space text = Ok words /\
    (forall w, In w words -> w <> []) /\
    (forall i bow, (i < length words)%nat ->
       exists i' bow', bow_step words (i, bow) = Some (i', bow') /\ (i < i')%nat) /\
    (forall fuel, (length words < fuel)%nat ->
       exists bow, bow_loop fuel words (0%nat, []) = Some bow) /\
    (forall ws i bow, nth_error ws i = Some [] -> bow_step ws (i, bow) = Some (i, bow)).
Proof.
  eexists. split; [apply bow_words_spec |].
  pose proof (split_go_nonempty [] (filter (fun c => negb (stripped cat_P c)) (lower text)))
    as Hne.
  split; [exact Hne | split; [| split]].
  - intros i bow Hi.
    destruct (bow_step_segment _ i bow Hne Hi) as (i' & toks & Hs & Hi' & _).
    exists i', (count_tokens toks bow). split; [exact Hs | lia].
  - intros fuel Hf. eexists. apply bow_loop_tokens; [exact Hne | lia].
  - apply bow_step_empty.
Qed.

(** C10: excluding a character that is not punctuation raises [KeyError];
    with no exclusions ([None] or an empty list) every punctuation
    character is dropped. *)
Theorem remove_punctuation_exclusions :
  (forall s exclude,
     (forall p, In p exclude -> length p = 1%nat) ->
     (exists c, In [c] exclude /\ cat_P c = false) ->
     remove_punctuation cat_P s (Some exclude) = Err KeyError) /\
  (forall s,
     remove_punctuation cat_P s None = Ok (filter (fun c => negb (cat_P c)) s) /\
     remove_punctuation cat_P s (Some []) = Ok (filter (fun c => negb (cat_P c)) s)).
Proof.
  split.
  - intros s exclude Hlen (c & Hin & Hc).
    unfold remove_punctuation. destruct exclude as [| p rest]; [easy |].
    rewrite (del_keys_missing c (p :: rest)); auto.
  - intros s. unfold remove_punctuation, translate.
    assert (H : filter (fun c => negb (punct_table cat_P c)) s
                = filter (fun c => negb (cat_P c)) s)
      by (apply filter_ext; intros c; now rewrite punct_table_stripped).
    now rewrite H.
Qed.

End Counter.


(** ** Claims on [bag_of_words] at the tables *)

(** C2: [bag_of_words] counts, for every key, the occurrences the spec's
    rule yields over the normalized, split text: a fragment longer than one
    character once, a run of length-1 fragments once if it is a single
    fragment and not at all otherwise; and the example of the tests. *)
Theorem bag_of_words_counting_rule :
  (forall (lower : pystr -> pystr) (cat_P is_space : N -> bool),
     cat_P 45%N = true -> cat_P 39%N = true ->
     (forall c, cat_P c = true -> (c < maxunicode)%N) ->
     forall text,
       let words := split is_space (filter (fun c => negb (stripped cat_P c)) (lower text)) in
       bow_words lower cat_P is_space text = Ok words /\
       exists bow, bag_of_words lower cat_P is_space text = Ok (Some bow) /\
         forall k, dict_get k bow = (if occurrences k (spec_tokens words) =? 0 then None
                                     else Some (occurrences k (spec_tokens words)))) /\
  latin1_bag_of_words (str_of "Hello my name is H a r p e r, what's your name?")
  = Ok (Some [(str_of "hello", 1); (str_of "my", 1); (str_of "name", 2); (str_of "is", 1);
              (str_of "what's", 1); (str_of "your", 1)]).
Proof.
  split; [| vm_compute; reflexivity].
  intros lower cat_P is_space H45 H39 Hr text words.
  split; [now apply bow_words_spec |].
  eexists. split; [now apply bag_of_words_tokens |].
  intros k. unfold count_tokens. rewrite dict_get_fold. reflexivity.
Qed.

Lemma latin1_cat_P_range (c : N) : latin1_cat_P c = true -> (c < maxunicode)%N.
Proof.
  unfold latin1_cat_P. intros H. apply existsb_exists in H.
  destruct H as (x & Hx & Hc). apply N.eqb_eq in Hc. subst x.
  unfold maxunicode. simpl in Hx.
  repeat (destruct Hx as [<- | Hx]; [reflexivity |]). contradiction.
Qed.

Lemma bag_of_words_keys_witness :
  latin1_cat_P 45%N = true /\ latin1_cat_P 39%N = true /\
  exists words bow,
    bow_words latin1_lower latin1_cat_P latin1_is_space
      (str_of "Hello my name is H a r p e r, what's your name?") = Ok words /\
    latin1_bag_of_words (str_of "Hello my name is H a r p e r, what's your name?")
      = Ok (Some bow) /\
    forall k, In k (map fst bow) ->
      k <> [] /\ In k words /\ (1 < length k \/ length k = 1)%nat.
Proof.
  split; [reflexivity | split; [reflexivity |]].
  apply bag_of_words_keys; [reflexivity | reflexivity | exact latin1_cat_P_range].
Defined.

Lemma bag_of_words_terminates_witness :
  latin1_cat_P 45%N = true /\ latin1_cat_P 39%N = true /\
  exists words,
    bow_words latin1_lower latin1_cat_P latin1_is_space (str_of "H a r p e r") = Ok words /\
    (forall w, In w words -> w <> []) /\
    (forall i bow, (i < length words)%nat ->
       exists i' bow', bow_step words (i, bow) = Some (i', bow') /\ (i < i')%nat) /\
    (forall fuel, (length words < fuel)%nat ->
       exists bow, bow_loop fuel words (0%nat, []) = Some bow) /\
    (forall ws i bow, nth_error ws i = Some [] -> bow_step ws (i, bow) = Some (i, bow)).
Proof.
  split; [reflexivity | split; [reflexivity |]].
  apply bag_of_words_terminates; [reflexivity | reflexivity | exact latin1_cat_P_range].
Defined.

Lemma remove_punctuation_exclusions_witness :
  (forall c, latin1_cat_P c = true -> (c < maxunicode)%N) /\
  remove_punctuation latin1_cat_P (str_of "a-b") (Some [str_of "-"; str_of "a"]) = Err KeyError /\
  ((forall s exclude,
     (forall p, In p exclude -> length p = 1%nat) ->
     (exists c, In [c] exclude /\ latin1_cat_P c = false) ->
     remove_punctuation latin1_cat_P s (Some exclude) = Err KeyError) /\
   (forall s,
     remove_punctuation latin1_cat_P s None = Ok (filter (fun c => negb (latin1_cat_P c)) s) /\
     remove_punctuation latin1_cat_P s (Some [])
       = Ok (filter (fun c => negb (latin1_cat_P c)) s))).
Proof.
  split; [exact latin1_cat_P_range | split; [vm_compute; reflexivity |]].
  apply remove_punctuation_exclusions. exact latin1_cat_P_range.
Defined.

(** ** Further properties of the metrics *)

Lemma lev_rev_swap (w : weights) (r1 r2 : pystr) :
  lev_rev w r1 r2 = lev_rev (swap_weights w) r2 r1.
Proof.
  revert r2. induction r1 as [| a r1 IH]; intros r2.
  - destruct r2 as [| b r2]; simpl; lia.
  - induction r2 as [| b r2 IH2].
    + simpl. lia.
    + rewrite !lev_rev_cons. rewrite IH2, (IH (b :: r2)), (IH r2).
      unfold sub_cost. rewrite N.eqb_sym. simpl. unfold min3. lia.
Qed.

(** X1: exchanging [output] and [source] gives the same distance once the
    insertion and deletion costs are exchanged too. *)
Theorem calculate_edit_distance_swap :
  (forall (output source : pystr) (w : weights),
     Levenshtein_distance output source w
     = Levenshtein_distance source output (swap_weights w)) /\
  (forall (output source : pystr) (w : weights), output <> [] -> source <> [] ->
     calculate_edit_distance output source w (str_of "distance")
     = calculate_edit_distance source output (swap_weights w) (str_of "distance")).
Proof.
  assert (H : forall output source w, Levenshtein_distance output source w
                = Levenshtein_distance source output (swap_weights w))
    by (intros; rewrite !Levenshtein_distance_rev; apply lev_rev_swap).
  split; [exact H |].
  intros output source w Ho Hs.
  rewrite (proj2 (calculate_edit_distance_nonempty output source w Hs)),
          (proj2 (calculate_edit_distance_nonempty source output _ Ho)), H.
  reflexivity.
Qed.

Lemma lev_rev_upper (w : weights) (r1 r2 : pystr) :
  nonneg w ->
  lev_rev w r1 r2 <= w_del w * Z.of_nat (length r1) + w_ins w * Z.of_nat (length r2).
Proof.
  intros (Hi & Hd & Hs). revert r2.
  induction r1 as [| a r1 IH]; intros r2.
  - simpl. lia.
  - induction r2 as [| b r2 IH2].
    + simpl. lia.
    + rewrite lev_rev_cons. specialize (IH (b :: r2)).
      unfold min3. cbn [length] in *. lia.
Qed.

(** X2: the distance never exceeds deleting all of [output] and inserting
    all of [source]; it is exactly that when one of them is empty. *)
Theorem Levenshtein_distance_bounds :
  (forall (output source : pystr) (w : weights), nonneg w ->
     Levenshtein_distance output source w
     <= w_del w * Z.of_nat (length output) + w_ins w * Z.of_nat (length source)) /\
  (forall (source : pystr) (w : weights),
     Levenshtein_distance [] source w = w_ins w * Z.of_nat (length source)) /\
  (forall (output : pystr) (w : weights),
     Levenshtein_distance output [] w = w_del w * Z.of_nat (length output)).
Proof.
  split; [| split].
  - intros output source w Hw. rewrite Levenshtein_distance_rev.
    rewrite <- (length_rev output), <- (length_rev source). now apply lev_rev_upper.
  - intros source w. rewrite Levenshtein_distance_rev. simpl. now rewrite length_rev.
  - intros output w. rewrite Levenshtein_distance_rev. simpl.
    rewrite <- (length_rev output). destruct (rev output); simpl; lia.
Qed.

Lemma translate_idem (s : pystr) (tbl : table) : translate (translate s tbl) tbl = translate s tbl.
Proof.
  unfold translate. induction s as [| c s IH]; [reflexivity |].
  simpl. destruct (tbl c) eqn:E; simpl; [exact IH |]. rewrite E. simpl. now rewrite IH.
Qed.

(** X3: [remove_punctuation] is idempotent: applied to its own result with
    the same exclusions it returns that result unchanged. *)
Theorem remove_punctuation_idempotent (cat_P : N -> bool) (s : pystr)
    (exclude : option (list pystr)) (r : pystr) :
  remove_punctuation cat_P s exclude = Ok r -> remove_punctuation cat_P r exclude = Ok r.
Proof.
  unfold remove_punctuation.
  destruct (match exclude with
            | Some ((_ :: _) as ex) => del_keys (punct_table cat_P) ex
            | _ => Ok (punct_table cat_P) end) as [tbl | e]; [| discriminate].
  intros H. injection H as <-. now rewrite translate_idem.
Qed.

Lemma remove_punctuation_idempotent_witness :
  remove_punctuation latin1_cat_P (str_of "a, b!") None = Ok (str_of "a b") /\
  remove_punctuation latin1_cat_P (str_of "a b") None = Ok (str_of "a b").
Proof.
  split; [vm_compute; reflexivity |].
  apply (remove_punctuation_idempotent latin1_cat_P (str_of "a, b!")).
  vm_compute. reflexivity.
Defined.

(** ** The ingest connectors: folders and file types *)

Lemma split_sep_length (sep : N) (s : pystr) :
  length (split_sep sep s) = S (count_occ N.eq_dec s sep).
Proof.
  induction s as [| c s IH]; [reflexivity |]. simpl.
  destruct (N.eq_dec c sep) as [-> | Hne].
  - rewrite N.eqb_refl. simpl. now rewrite IH.
  - apply N.eqb_neq in Hne. rewrite Hne.
    destruct (split_sep sep s); simpl in *; [discriminate | exact IH].
Qed.

Lemma split_sep_free (sep : N) (x : pystr) :
  ~ In sep x -> split_sep sep x = [x].
Proof.
  induction x as [| c x IH]; intros Hx; [reflexivity |]. simpl.
  assert (Hc : (c =? sep)%N = false) by (apply N.eqb_neq; intros ->; apply Hx; now left).
  rewrite Hc, IH by (intros H; apply Hx; now right). reflexivity.
Qed.

Lemma split_sep_app (sep : N) (x y : pystr) :
  ~ In sep x -> split_sep sep (x ++ sep :: y) = x :: split_sep sep y.
Proof.
  induction x as [| c x IH]; intros Hx; simpl; [now rewrite N.eqb_refl |].
  assert (Hc : (c =? sep)%N = false) by (apply N.eqb_neq; intros ->; apply Hx; now left).
  rewrite Hc, IH by (intros H; apply Hx; now right). reflexivity.
Qed.

Lemma split_sep_join (sep : N) (xs : list pystr) :
  xs <> [] -> (forall x, In x xs -> ~ In sep x) -> split_sep sep (join_sep sep xs) = xs.
Proof.
  induction xs as [| x xs IH]; intros Hne Hfree; [congruence |].
  destruct xs as [| y ys].
  - simpl. apply split_sep_free, Hfree. now left.
  - change (join_sep sep (x :: y :: ys)) with (x ++ sep :: join_sep sep (y :: ys)).
    rewrite split_sep_app by (apply Hfree; now left).
    rewrite IH; [reflexivity | discriminate |]. intros z Hz. apply Hfree. now right.
Qed.

Section StripFacts.
Variable is_space : N -> bool.

Lemma lstrip_idem (s : pystr) : lstrip is_space (lstrip is_space s) = lstrip is_space s.
Proof.
  induction s as [| c s IH]; [reflexivity |]. simpl.
  destruct (is_space c) eqn:E; [exact IH |]. simpl. now rewrite E.
Qed.

Lemma lstrip_head (s : pystr) :
  match lstrip is_space s with [] => True | c :: _ => is_space c = false end.
Proof.
  induction s as [| c s IH]; [exact I |]. simpl.
  destruct (is_space c) eqn:E; [exact IH | exact E].
Qed.

Lemma lstrip_snoc (l : pystr) (h : N) :
  is_space h = false -> lstrip is_space (l ++ [h]) = lstrip is_space l ++ [h].
Proof.
  intros Hh. induction l as [| c l IH]; simpl; [now rewrite Hh |].
  destruct (is_space c); [exact IH | reflexivity].
Qed.

Lemma strip_stripped (s : pystr) :
  lstrip is_space (strip is_space s) = strip is_space s /\
  lstrip is_space (rev (strip is_space s)) = rev (strip is_space s).
Proof.
  unfold strip. rewrite rev_involutive. split; [| apply lstrip_idem].
  pose proof (lstrip_head s) as Hh.
  destruct (lstrip is_space s) as [| h x]; [reflexivity |].
  simpl. rewrite lstrip_snoc by exact Hh. rewrite rev_app_distr. simpl.
  now rewrite Hh.
Qed.

End StripFacts.

(** X4: [parse_folders] returns one folder more than the string has commas,
    and no folder it returns begins or ends with a whitespace character. *)
Theorem parse_folders_shape (is_space : N -> bool) (folder_str : pystr) :
  length (parse_folders is_space folder_str) = S (count_occ N.eq_dec folder_str 44%N) /\
  (forall x, In x (parse_folders is_space folder_str) ->
     lstrip is_space x = x /\ lstrip is_space (rev x) = rev x).
Proof.
  unfold parse_folders. split.
  - rewrite length_map. apply split_sep_length.
  - intros x Hx. apply in_map_iff in Hx as (y & <- & _). apply strip_stripped.
Qed.

(** X5: joining a non-empty list of folder names with commas and parsing it
    back gives the list again, when no name contains a comma or has
    whitespace at either end. *)
Theorem parse_folders_join (is_space : N -> bool) (folders : list pystr) :
  folders <> [] ->
  (forall x, In x folders -> ~ In 44%N x /\ strip is_space x = x) ->
  parse_folders is_space (join_sep 44 folders) = folders.
Proof.
  intros Hne Hok. unfold parse_folders.
  rewrite split_sep_join; [| exact Hne | intros x Hx; apply (Hok x Hx)].
  rewrite <- map_id. apply map_ext_in. intros x Hx. apply (Hok x Hx).
Qed.

Lemma parse_folders_join_witness :
  parse_folders latin1_is_space (join_sep 44 [str_of "Inbox"; str_of "Sent Items"])
  = [str_of "Inbox"; str_of "Sent Items"].
Proof.
  apply parse_folders_join; [discriminate |].
  intros x [<- | [<- | []]]; split; (vm_compute; (reflexivity || intros H; repeat destruct H as [H | H]; (discriminate || contradiction))).
Defined.

Lemma existsb_ext_in {A : Type} (f g : A -> bool) (l : list A) :
  (forall x, In x l -> f x = g x) -> existsb f l = existsb g l.
Proof.
  induction l as [| a l IH]; intros H; [reflexivity |]. simpl.
  rewrite H by (now left). rewrite IH by (intros; apply H; now right). reflexivity.
Qed.

Lemma py_endswith_app (q p suffix : pystr) :
  (length suffix <= length p)%nat -> py_endswith (q ++ p) suffix = py_endswith p suffix.
Proof.
  intros Hle. unfold py_endswith. rewrite length_app.
  replace (length q + length p - length suffix)%nat
    with (length q + (length p - length suffix))%nat by lia.
  rewrite skipn_app, skipn_all2 by lia.
  replace (length q + (length p - length suffix) - length q)%nat
    with (length p - length suffix)%nat by lia.
  assert (H1 : (length suffix <=? length q + length p)%nat = true) by (apply Nat.leb_le; lia).
  apply Nat.leb_le in Hle. rewrite H1, Hle. reflexivity.
Qed.

(** X6: whether a path is a supported file type depends only on its last
    five characters: any prefix can be put before them. *)
Theorem is_file_type_supported_suffix (q p : pystr) :
  (5 <= length p)%nat -> is_file_type_supported (q ++ p) = is_file_type_supported p.
Proof.
  intros H5. unfold is_file_type_supported. apply existsb_ext_in.
  intros e He. apply py_endswith_app.
  assert (Hlen : (length e <= 5)%nat).
  { unfold supported_extensions in He.
    repeat (destruct He as [<- | He]; [vm_compute; lia |]). destruct He. }
  lia.
Qed.

Lemma is_file_type_supported_suffix_witness :
  is_file_type_supported (str_of "docs/" ++ str_of "a.pptx") = true.
Proof.
  rewrite (is_file_type_supported_suffix (str_of "docs/") (str_of "a.pptx"));
    [vm_compute; reflexivity | vm_compute; lia].
Defined.

Lemma in_skipn_in {A : Type} (n : nat) (l : list A) (x : A) :
  In x (skipn n l) -> In x l.
Proof.
  revert l. induction n as [| n IH]; intros [| a l] H; simpl in *; auto.
Qed.

(** X7: a path without a '.' (LICENSE, Makefile, ...) is never a supported
    file type. *)
Theorem is_file_type_supported_no_dot (path : pystr) :
  ~ In 46%N path -> is_file_type_supported path = false.
Proof.
  intros Hdot. unfold is_file_type_supported.
  apply Bool.not_true_iff_false. intros Hex.
  apply existsb_exists in Hex as (e & He & Hend).
  unfold py_endswith in Hend. apply andb_prop in Hend as [_ Heq].
  apply str_eqb_eq in Heq.
  assert (Hd : In 46%N e).
  { unfold supported_extensions in He.
    repeat (destruct He as [<- | He]; [now left |]). destruct He. }
  apply Hdot. rewrite <- Heq in Hd. exact (in_skipn_in _ _ _ Hd).
Qed.

Lemma is_file_type_supported_no_dot_witness :
  is_file_type_supported (str_of "LICENSE") = false.
Proof.
  apply is_file_type_supported_no_dot. vm_compute.
  intros H; repeat destruct H as [H | H]; (discriminate || contradiction).
Defined.

(** ** Totals of [bag_of_words] *)

Lemma dict_total_set (k : pystr) (v : Z) (d : dict) :
  dict_total (dict_set k v d)
  = dict_total d + v - match dict_get k d with Some n => n | None => 0 end.
Proof.
  unfold dict_total. induction d as [| [k' v'] d IH]; simpl; [lia |].
  destruct (str_eqb k k'); simpl; lia.
Qed.

Lemma dict_total_bow_add (w : pystr) (d : dict) : dict_total (bow_add w d) = dict_total d + 1.
Proof.
  unfold bow_add. destruct (dict_get w d) eqn:E; rewrite dict_total_set, E; lia.
Qed.

Lemma dict_total_count_tokens (toks : list pystr) (d : dict) :
  dict_total (count_tokens toks d) = dict_total d + Z.of_nat (length toks).
Proof.
  unfold count_tokens. revert d. induction toks as [| t toks IH]; intros d; simpl; [lia |].
  rewrite IH, dict_total_bow_add. lia.
Qed.

Lemma dict_get_in (k : pystr) (d : dict) (n : Z) :
  dict_get k d = Some n -> exists k', In (k', n) d.
Proof.
  induction d as [| [k' v] d IH]; simpl; [discriminate |].
  destruct (str_eqb k k'); [intros [= <-]; eauto |].
  intros H. destruct (IH H) as [k'' Hk]. eauto.
Qed.

Lemma dict_set_in (k : pystr) (v : Z) (d : dict) (k' : pystr) (v' : Z) :
  In (k', v') (dict_set k v d) -> In (k', v') d \/ v' = v.
Proof.
  induction d as [| [k0 v0] d IH]; simpl.
  - intros [[= _ <-] | []]. now right.
  - destruct (str_eqb k k'); destruct (str_eqb k k0); simpl;
      intros [H | H]; try (injection H as -> ->); auto;
      try (destruct (IH H); auto).
Qed.

Lemma count_tokens_positive (toks : list pystr) (d : dict) :
  (forall k v, In (k, v) d -> 1 <= v) ->
  forall k v, In (k, v) (count_tokens toks d) -> 1 <= v.
Proof.
  unfold count_tokens. revert d. induction toks as [| t toks IH]; intros d Hd; simpl; [exact Hd |].
  apply IH. intros k v Hk. unfold bow_add in Hk.
  destruct (dict_get t d) as [n |] eqn:E; apply dict_set_in in Hk as [Hk | ->]; eauto; try lia.
  destruct (dict_get_in _ _ _ E) as [k' Hk']. apply Hd in Hk'. lia.
Qed.

Lemma segments_concat (ws : list pystr) : concat (map segment_items (segments ws)) = ws.
Proof.
  induction ws as [| w ws IH]; [reflexivity |]. simpl.
  destruct (length w =? 1)%nat.
  - destruct (segments ws) as [| [w' | r] rest]; simpl in *; now rewrite <- IH at 2 || (rewrite IH).
  - simpl. now rewrite IH.
Qed.

Lemma spec_tokens_length (ws : list pystr) : (length (spec_tokens ws) <= length ws)%nat.
Proof.
  rewrite <- (segments_concat ws) at 2. unfold spec_tokens.
  induction (segments ws) as [| sg sgs IH]; [simpl; lia |]. simpl.
  rewrite !length_app.
  assert ((length (contribution sg) <= length (segment_items sg))%nat)
    by (destruct sg as [w | [| c [| c' r]]]; simpl; lia).
  lia.
Qed.

Lemma spec_tokens_no_single (ws : list pystr) :
  (forall w, In w ws -> length w <> 1%nat) -> spec_tokens ws = ws.
Proof.
  induction ws as [| w ws IH]; intros H; [reflexivity |].
  rewrite spec_tokens_cons_long by (apply H; now left).
  rewrite IH; [reflexivity |]. intros x Hx. apply H. now right.
Qed.

(** X8: every count of [bag_of_words] is at least 1, and the counts add up
    to at most the number of fragments of the split text; exactly that
    number when no fragment is a single character. *)
Theorem bag_of_words_total (lower : pystr -> pystr) (cat_P is_space : N -> bool) :
  cat_P 45%N = true -> cat_P 39%N = true ->
  (forall c, cat_P c = true -> (c < maxunicode)%N) ->
  forall text, exists words bow,
    bow_words lower cat_P is_space text = Ok words /\
    bag_of_words lower cat_P is_space text = Ok (Some bow) /\
    (forall k v, In (k, v) bow -> 1 <= v) /\
    dict_total bow <= Z.of_nat (length words) /\
    ((forall w, In w words -> length w <> 1%nat) -> dict_total bow = Z.of_nat (length words)).
Proof.
  intros H45 H39 Hr text.
  set (words := split is_space (filter (fun c => negb (stripped cat_P c)) (lower text))).
  exists words, (count_tokens (spec_tokens words) []).
  split; [now apply bow_words_spec |]. split; [now apply bag_of_words_tokens |].
  split; [apply count_tokens_positive; simpl; tauto |].
  rewrite dict_total_count_tokens. simpl. split.
  - pose proof (spec_tokens_length words). lia.
  - intros Hs. now rewrite spec_tokens_no_single.
Qed.

Lemma bag_of_words_total_witness :
  exists words bow,
    bow_words latin1_lower latin1_cat_P latin1_is_space (str_of "Hello my name is H a r p e r") = Ok words /\
    latin1_bag_of_words (str_of "Hello my name is H a r p e r") = Ok (Some bow) /\
    (forall k v, In (k, v) bow -> 1 <= v) /\
    dict_total bow <= Z.of_nat (length words) /\
    ((forall w, In w words -> length w <> 1%nat) -> dict_total bow = Z.of_nat (length words)).
Proof.
  apply (bag_of_words_total latin1_lower latin1_cat_P latin1_is_space);
    [vm_compute; reflexivity | vm_compute; reflexivity | exact latin1_cat_P_range].
Defined.

(** ** The Salesforce connector *)

Lemma tmp_download_file_eq (download_dir record_type record_id : pystr) :
  tmp_download_file download_dir record_type record_id
  = if str_in record_type ACCEPTED_CATEGORIES then
      SfOk (download_dir, record_type,
            record_id ++ if str_eqb record_type (str_of "EmailMessage")
                         then str_of ".eml" else str_of ".xml")
    else SfErr (MissingCategoryError
                  (str_of "There are no categories with the name: " ++ record_type)).
Proof.
  unfold tmp_download_file, str_in, ACCEPTED_CATEGORIES. cbn [existsb].
  destruct (str_eqb record_type (str_of "Account")), (str_eqb record_type (str_of "Case")),
    (str_eqb record_type (str_of "Campaign")), (str_eqb record_type (str_of "EmailMessage")),
    (str_eqb record_type (str_of "Lead")); reflexivity.
Qed.

(** X9: [_tmp_download_file] succeeds exactly for the record types of
    [ACCEPTED_CATEGORIES]: an [.eml] file for [EmailMessage], an [.xml] file
    for the four others, under [download_dir/record_type]; any other type
    raises [MissingCategoryError] naming it. *)
Theorem tmp_download_file_accepted (download_dir record_type record_id : pystr) :
  tmp_download_file download_dir record_type record_id
  = if str_in record_type ACCEPTED_CATEGORIES then
      SfOk (download_dir, record_type,
            record_id ++ if str_eqb record_type (str_of "EmailMessage")
                         then str_of ".eml" else str_of ".xml")
    else SfErr (MissingCategoryError
                  (str_of "There are no categories with the name: " ++ record_type)).
Proof. apply tmp_download_file_eq. Qed.

Definition docs_of (query : pystr -> list pystr) (categories : list pystr) : list (pystr * pystr) :=
  flat_map (fun rt => map (fun id => (rt, id)) (query (str_of "select Id from " ++ rt))) categories.

Lemma ingest_loop_eq (query : pystr -> list pystr) (categories : list pystr) :
  forall acc, ingest_loop query categories acc
  = match find (fun rt => negb (str_in rt ACCEPTED_CATEGORIES)) categories with
    | Some rt => SfErr (SfValueError (rt ++ str_of " not currently an accepted Salesforce category"))
    | None => SfOk (acc ++ docs_of query categories)
    end.
Proof.
  unfold docs_of. induction categories as [| rt rest IH]; intros acc;
    cbn [ingest_loop find flat_map].
  - now rewrite app_nil_r.
  - destruct (negb (str_in rt ACCEPTED_CATEGORIES)); [reflexivity |].
    rewrite IH, app_assoc. reflexivity.
Qed.

(** X10: [get_ingest_docs] raises [ValueError] naming the first category
    that is not accepted, whatever the queries return; when all are
    accepted it returns, category after category in the configured order,
    one document per record id of [select Id from <category>]. *)
Theorem get_ingest_docs_eq (query : pystr -> list pystr) (categories : list pystr) :
  get_ingest_docs query categories
  = match find (fun rt => negb (str_in rt ACCEPTED_CATEGORIES)) categories with
    | Some rt => SfErr (SfValueError (rt ++ str_of " not currently an accepted Salesforce category"))
    | None => SfOk (docs_of query categories)
    end.
Proof. unfold get_ingest_docs. apply ingest_loop_eq. Qed.

(** X11: every document [get_ingest_docs] returns is of a configured
    category, and its [_tmp_download_file] does not raise: it is
    [<id>.eml] for an [EmailMessage], [<id>.xml] otherwise. *)
Theorem get_ingest_docs_download (query : pystr -> list pystr) (categories : list pystr)
    (docs : list (pystr * pystr)) (download_dir : pystr) :
  get_ingest_docs query categories = SfOk docs ->
  forall record_type record_id, In (record_type, record_id) docs ->
  In record_type categories /\
  tmp_download_file download_dir record_type record_id
  = SfOk (download_dir, record_type,
          record_id ++ if str_eqb record_type (str_of "EmailMessage")
                       then str_of ".eml" else str_of ".xml").
Proof.
  unfold get_ingest_docs. rewrite ingest_loop_eq.
  destruct (find _ categories) eqn:Ef; [discriminate |].
  intros [= <-] rt id Hin. unfold docs_of in Hin.
  apply in_flat_map in Hin as (rt' & Hrt' & Hin).
  apply in_map_iff in Hin as (id' & [= <- <-] & _).
  split; [exact Hrt' |].
  rewrite tmp_download_file_eq.
  assert (Hacc : str_in rt' ACCEPTED_CATEGORIES = true).
  { destruct (str_in rt' ACCEPTED_CATEGORIES) eqn:E; [reflexivity |].
    pose proof (find_none _ _ Ef rt' Hrt') as H. cbv beta in H. rewrite E in H. discriminate. }
  now rewrite Hacc.
Qed.

Lemma get_ingest_docs_download_witness :
  In (str_of "EmailMessage") [str_of "Lead"; str_of "EmailMessage"] /\
  tmp_download_file (str_of "tmp") (str_of "EmailMessage") (str_of "02s")
  = SfOk (str_of "tmp", str_of "EmailMessage", str_of "02s.eml").
Proof.
  exact (get_ingest_docs_download (fun q => [str_of "02s"]) [str_of "Lead"; str_of "EmailMessage"]
           [(str_of "Lead", str_of "02s"); (str_of "EmailMessage", str_of "02s")] (str_of "tmp")
           eq_refl (str_of "EmailMessage") (str_of "02s") (or_intror (or_introl eq_refl))).
Defined.

(** ** The XML of a Salesforce record *)








(** ** The Git connector *)

Definition plain_char (c : N) : Prop := c <> 42%N /\ c <> 63%N /\ c <> 91%N.

Lemma translate_plain (lit : pystr) :
  (forall c, In c lit -> plain_char c) ->
  forall fuel, (length lit < fuel)%nat -> translate_pat fuel lit = Some (map GLit lit).
Proof.
  intros Hp. induction lit as [| c lit IH]; intros [| fuel] Hf; simpl in Hf; try lia; [reflexivity |].
  destruct (Hp c (or_introl eq_refl)) as (H42 & H63 & H91).
  cbn [translate_pat]. apply N.eqb_neq in H42, H63, H91. rewrite H42, H63, H91.
  rewrite IH; [reflexivity | intros x Hx; apply Hp; now right | lia].
Qed.

Lemma gmatch_lits (lit s : pystr) : gmatch (map GLit lit) s = str_eqb s lit.
Proof.
  revert s. induction lit as [| c lit IH]; intros [| c' s]; try reflexivity.
  cbn [map gmatch str_eqb]. now rewrite IH, N.eqb_sym.
Qed.

Lemma gmatch_star (toks : list gtok) (s : pystr) :
  gmatch (GStar :: toks) s
  = gmatch toks s || match s with [] => false | _ :: s' => gmatch (GStar :: toks) s' end.
Proof. destruct s; reflexivity. Qed.

Lemma str_eqb_length (s t : pystr) : str_eqb s t = true -> length s = length t.
Proof. intros H. apply str_eqb_eq in H. now subst. Qed.

Lemma py_endswith_cons (c : N) (s lit : pystr) :
  py_endswith (c :: s) lit = str_eqb (c :: s) lit || py_endswith s lit.
Proof.
  unfold py_endswith. cbn [length].
  destruct (Nat.lt_total (length lit) (S (length s))) as [Hlt | [Heq | Hgt]].
  - assert (Hne : str_eqb (c :: s) lit = false).
    { destruct (str_eqb (c :: s) lit) eqn:E; [| reflexivity].
      apply str_eqb_length in E. simpl in E. lia. }
    rewrite Hne. replace (S (length s) - length lit)%nat with (S (length s - length lit)) by lia.
    replace (length lit <=? S (length s))%nat with true by (symmetry; apply Nat.leb_le; lia).
    replace (length lit <=? length s)%nat with true by (symmetry; apply Nat.leb_le; lia).
    reflexivity.
  - rewrite Heq, Nat.leb_refl, Nat.sub_diag.
    replace (S (length s) <=? length s)%nat with false by (symmetry; apply Nat.leb_gt; lia).
    cbn [skipn andb]. now rewrite orb_false_r.
  - assert (Hne : str_eqb (c :: s) lit = false).
    { destruct (str_eqb (c :: s) lit) eqn:E; [| reflexivity].
      apply str_eqb_length in E. simpl in E. lia. }
    rewrite Hne.
    replace (length lit <=? S (length s))%nat with false by (symmetry; apply Nat.leb_gt; lia).
    replace (length lit <=? length s)%nat with false by (symmetry; apply Nat.leb_gt; lia).
    reflexivity.
Qed.

(** X13: the glob ['*'] followed by plain characters (no ['*'], ['?'] or
    ['[']) matches a path exactly when the path ends with those characters,
    as [str.endswith] does: ["*.md"] selects the paths ending in [.md]. *)
Theorem fnmatch_star_suffix (path lit : pystr) :
  (forall c, In c lit -> plain_char c) ->
  fnmatch path (42%N :: lit) = Some (py_endswith path lit).
Proof.
  intros Hp. unfold fnmatch.
  replace (translate_pat (S (length (42%N :: lit))) (42%N :: lit))
    with (Some (GStar :: map GLit lit)).
  2:{ change (translate_pat (S (length (42%N :: lit))) (42%N :: lit))
        with (match translate_pat (S (length lit)) lit with
              | None => None
              | Some (GStar :: _) as r => r
              | Some r => Some (GStar :: r) end).
      rewrite (translate_plain lit Hp (S (length lit))) by lia.
      destruct lit; reflexivity. }
  cbn [option_map]. f_equal.
  induction path as [| c path IH].
  - rewrite gmatch_star, gmatch_lits, orb_false_r. unfold py_endswith.
    destruct lit; reflexivity.
  - rewrite gmatch_star, IH, gmatch_lits, py_endswith_cons. reflexivity.
Qed.

Lemma fnmatch_star_suffix_witness :
  fnmatch (str_of "docs/notes.md") (str_of "*.md") = Some true /\
  fnmatch (str_of "docs/notes.md") (str_of "*.md") = Some (py_endswith (str_of "docs/notes.md") (str_of ".md")).
Proof.
  split; [vm_compute; reflexivity |].
  apply (fnmatch_star_suffix (str_of "docs/notes.md") (str_of ".md")).
  intros c Hc. vm_compute in Hc.
  repeat destruct Hc as [<- | Hc]; try contradiction; unfold plain_char; repeat split; discriminate.
Defined.





